(** * flexlimit: a shallow embedding of the rate limiter's contracts

    The Go packages [flexlimit] (types.go, errors.go), [algorithm],
    [storage] and [clock] are embedded one module per package.  Integers
    are [Z], with the wrap-around of an int64 written out where durations
    are added or negated; a [time.Duration] is its number of nanoseconds;
    a Go string is a [string]; a Go map is a [gmap]. *)

From Stdlib Require Import ZArith Ascii String List Bool Lia.
From stdpp Require Import base option gmap strings.

Local Open Scope string_scope.
Local Open Scope Z_scope.

(** ** Package time: the constants and arithmetic the packages use *)
Module Time.

(** [time.Duration] is an int64 count of nanoseconds. *)
Definition Duration := Z.

(** [time.Time], as an instant counted in nanoseconds. *)
Definition Time := Z.

Definition Nanosecond : Duration := 1.
Definition Microsecond : Duration := 1000 * Nanosecond.
Definition Millisecond : Duration := 1000 * Microsecond.
Definition Second : Duration := 1000 * Millisecond.
Definition Minute : Duration := 60 * Second.

Definition minDuration : Duration := - 2 ^ 63.
Definition maxDuration : Duration := 2 ^ 63 - 1.

(** [t.Add(d)]. *)
Definition Add (t : Time) (d : Duration) : Time := t + d.

(** [t.Sub(u)]: the difference, saturated to the range of a Duration. *)
Definition Sub (t u : Time) : Duration :=
  if Z.ltb (t - u) minDuration then minDuration
  else if Z.ltb maxDuration (t - u) then maxDuration
  else t - u.

(** The int64 a computation on durations gives: its result wrapped
    around. *)
Definition int64 (z : Z) : Z := (z + 2 ^ 63) mod 2 ^ 64 - 2 ^ 63.

(** [d1 + d2] and [-d] on durations. *)
Definition Duration_add (d1 d2 : Duration) : Duration := int64 (d1 + d2).

Definition Duration_neg (d : Duration) : Duration := int64 (- d).

End Time.

(** ** Package flexlimit: errors.go and types.go *)
Module Flexlimit.

(** The dynamic values an [interface{}] holds in this package. *)
Inductive value : Type :=
| VString (s : string)
| VInt (n : Z)
| VAlgorithmType (a : string)
| VFallbackStrategy (f : string).

(** *** errors.go *)

(** The struct a [*LimitExceededError] points to. *)
Record LimitExceededError := {
  lee_Key : string;
  lee_Limit : Z;
  lee_Window : Time.Duration;
  lee_Used : Z;
  lee_RetryAfter : Time.Duration;
  lee_ResetAt : Time.Time
}.

(** The struct a [*InvalidConfigError] points to. *)
Record InvalidConfigError := {
  ice_Field : string;
  ice_Value : value;
  ice_Reason : string
}.

(** A pointer is the address of its allocation. *)
Definition addr := Z.

(** Go's [error] interface values: nil, or a dynamic value of one of the
    error types that reach this package.  The pointer types carry the
    address that [==] compares; [StorageErr] is a [*StorageError] with
    its four fields, the last one again an [error]. *)
Inductive error : Type :=
| ErrNil
| errorString (p : addr) (s : string)
| deadlineExceededError
| wrapError (p : addr) (msg : string) (err : error)
| LimitExceededErr (p : addr) (e : LimitExceededError)
| InvalidConfigErr (p : addr) (e : InvalidConfigError)
| StorageErr (p : addr) (Backend Operation Key : string) (Err : error).

(** [a == b] on interface values: the same dynamic type and, for
    pointers, the same address. *)
Definition error_eqb (a b : error) : bool :=
  match a, b with
  | ErrNil, ErrNil => true
  | errorString p _, errorString q _ => Z.eqb p q
  | deadlineExceededError, deadlineExceededError => true
  | wrapError p _ _, wrapError q _ _ => Z.eqb p q
  | LimitExceededErr p _, LimitExceededErr q _ => Z.eqb p q
  | InvalidConfigErr p _, InvalidConfigErr q _ => Z.eqb p q
  | StorageErr p _ _ _ _, StorageErr q _ _ _ _ => Z.eqb p q
  | _, _ => false
  end.

Definition is_nil (e : error) : bool :=
  match e with ErrNil => true | _ => false end.

(** [context.Canceled = errors.New("context canceled")] and
    [context.DeadlineExceeded = deadlineExceededError{}]. *)
Definition context_Canceled : error := errorString 1 "context canceled".
Definition context_DeadlineExceeded : error := deadlineExceededError.

(** The sentinels: six allocations made by [errors.New]. *)
Definition ErrRateLimitExceeded : error := errorString 2 "rate limit exceeded".
Definition ErrInvalidConfig : error := errorString 3 "invalid configuration".
Definition ErrStorageUnavailable : error := errorString 4 "storage backend unavailable".
Definition ErrKeyNotFound : error := errorString 5 "key not found".
Definition ErrContextCanceled : error := errorString 6 "context canceled".
Definition ErrContextDeadlineExceeded : error := errorString 7 "context deadline exceeded".

(** The [Is(error) bool] method of the dynamic type, where it has one:
    [LimitExceededError.Is], [InvalidConfigError.Is], [StorageError.Is]. *)
Definition Is_method (e : error) : option (error -> bool) :=
  match e with
  | LimitExceededErr _ _ => Some (fun target => error_eqb target ErrRateLimitExceeded)
  | InvalidConfigErr _ _ => Some (fun target => error_eqb target ErrInvalidConfig)
  | StorageErr _ _ _ _ _ => Some (fun target => error_eqb target ErrStorageUnavailable)
  | _ => None
  end.

(** The [Unwrap() error] method of the dynamic type, where it has one. *)
Definition Unwrap_method (e : error) : option error :=
  match e with
  | wrapError _ _ err => Some err
  | LimitExceededErr _ _ => Some ErrRateLimitExceeded
  | InvalidConfigErr _ _ => Some ErrInvalidConfig
  | StorageErr _ _ _ _ Err => Some Err
  | _ => None
  end.

(** The loop of [errors.is]; every dynamic type here is comparable.
    One unit of fuel is one turn of the loop. *)
Fixpoint is_loop (fuel : nat) (err target : error) : option bool :=
  match fuel with
  | O => None
  | S fuel =>
      if error_eqb err target then Some true
      else if match Is_method err with
              | Some Is => Is target
              | None => false
              end
      then Some true
      else
        match Unwrap_method err with
        | Some err' => if is_nil err' then Some false else is_loop fuel err' target
        | None => Some false
        end
  end.

(** The number of [Unwrap] steps from an error to the end of its chain. *)
Fixpoint chain (e : error) : nat :=
  match e with
  | ErrNil => 0
  | errorString _ _ => 1
  | deadlineExceededError => 1
  | wrapError _ _ err => S (chain err)
  | LimitExceededErr _ _ => 2
  | InvalidConfigErr _ _ => 2
  | StorageErr _ _ _ _ Err => S (chain Err)
  end.

(** [errors.Is(err, target)]. *)
Definition errors_Is (err target : error) : bool :=
  if is_nil err || is_nil target then error_eqb err target
  else
    match is_loop (chain err) err target with
    | Some b => b
    | None => false
    end.

(** [func wrapContextError(err error) error]. *)
Definition wrapContextError (err : error) : error :=
  if is_nil err then ErrNil
  else if errors_Is err context_Canceled then ErrContextCanceled
  else if errors_Is err context_DeadlineExceeded then ErrContextDeadlineExceeded
  else err.

(** *** types.go *)

Record LimitInfo := {
  li_Key : string;
  li_Allowed : bool;
  li_Limit : Z;
  li_Used : Z;
  li_Remaining : Z;
  li_ResetAt : Time.Time;
  li_ResetIn : Time.Duration;
  li_Cost : Z;
  li_Algorithm : string;
  li_Metadata : option (gmap string value)
}.

(** [Custom] and [Metadata] are Go maps, which may be nil: [None] is the
    nil map. *)
Record RequestContext := {
  IP : string;
  UserID : string;
  Endpoint : string;
  SessionID : string;
  Custom : option (gmap string string);
  Metadata : option (gmap string value)
}.

(** [func (rc RequestContext) Key(strategy string) string].  A case of
    the switch whose [if] fails falls out of the switch to the final
    [return ""]. *)
Definition Key (rc : RequestContext) (strategy : string) : string :=
  if decide (strategy = "ip") then
    if decide (IP rc ≠ "") then "ip:" +:+ IP rc else ""
  else if decide (strategy = "user") then
    if decide (UserID rc ≠ "") then "user:" +:+ UserID rc else ""
  else if decide (strategy = "endpoint") then
    if decide (Endpoint rc ≠ "") then "endpoint:" +:+ Endpoint rc else ""
  else if decide (strategy = "session") then
    if decide (SessionID rc ≠ "") then "session:" +:+ SessionID rc else ""
  else if decide (strategy = "global") then "global"
  else
    match Custom rc with
    | Some custom =>
        match custom !! strategy with
        | Some val => strategy +:+ ":" +:+ val
        | None => ""
        end
    | None => ""
    end.

(** [Options]: a nil interface or a nil func is [None]. *)
Record Options := {
  algorithm : string;
  storage : option value;
  clock : option value;
  metrics : option value;
  onLimit : option (LimitInfo -> unit);
  onAllow : option (LimitInfo -> unit);
  fallbackStrategy : string;
  onFallback : option (error -> unit);
  maxKeys : Z;
  cleanupInterval : Time.Duration;
  burstSize : Z
}.

(** [func defaultOptions() *Options]: the fields the literal leaves out
    take their zero values. *)
Definition defaultOptions : Options := {|
  algorithm := "token_bucket";
  storage := None;
  clock := None;
  metrics := None;
  onLimit := None;
  onAllow := None;
  fallbackStrategy := "allow_all";
  onFallback := None;
  maxKeys := 10000;
  cleanupInterval := 5 * Time.Minute;
  burstSize := 0
|}.

Definition AlgorithmType := string.
Definition TokenBucket : AlgorithmType := "token_bucket".
Definition SlidingWindow : AlgorithmType := "sliding_window".
Definition FixedWindow : AlgorithmType := "fixed_window".
Definition LeakyBucket : AlgorithmType := "leaky_bucket".

Definition FallbackStrategy := string.
Definition AllowAll : FallbackStrategy := "allow_all".
Definition DenyAll : FallbackStrategy := "deny_all".
Definition LocalMemory : FallbackStrategy := "local_memory".

(** [func (a AlgorithmType) Validate() error]: [None] is the nil error,
    [Some e] a pointer to a fresh struct [e]. *)
Definition AlgorithmType_Validate (a : AlgorithmType) : option InvalidConfigError :=
  if decide (a = TokenBucket ∨ a = SlidingWindow ∨ a = FixedWindow ∨ a = LeakyBucket)
  then None
  else Some {| ice_Field := "algorithm";
               ice_Value := VAlgorithmType a;
               ice_Reason := "must be one of: token_bucket, sliding_window, fixed_window, leaky_bucket" |}.

(** [func (f FallbackStrategy) Validate() error]. *)
Definition FallbackStrategy_Validate (f : FallbackStrategy) : option InvalidConfigError :=
  if decide (f = AllowAll ∨ f = DenyAll ∨ f = LocalMemory)
  then None
  else Some {| ice_Field := "fallback_strategy";
               ice_Value := VFallbackStrategy f;
               ice_Reason := "must be one of: allow_all, deny_all, local_memory" |}.

End Flexlimit.

(** ** Package algorithm: algorithm.go *)
Module Algorithm.

(** What the [interface{}] field of a [ConfigError] holds. *)
Inductive value : Type :=
| VInt64 (n : Z)
| VDuration (d : Time.Duration)
| VAlgorithmType (a : string).

Record Config := {
  Rate : Z;
  Window : Time.Duration;
  BurstSize : Z;
  Algorithm : string
}.

(** The struct a [*ConfigError] points to. *)
Record ConfigError := {
  Field : string;
  Value : value;
  Reason : string
}.

(** [func (c *Config) Validate() error]: [None] is the nil error. *)
Definition Validate (c : Config) : option ConfigError :=
  if Z.leb (Rate c) 0 then
    Some {| Field := "rate"; Value := VInt64 (Rate c); Reason := "must be positive" |}
  else if Z.leb (Window c) 0 then
    Some {| Field := "window"; Value := VDuration (Window c); Reason := "must be positive" |}
  else if Z.ltb (BurstSize c) 0 then
    Some {| Field := "burst_size"; Value := VInt64 (BurstSize c); Reason := "cannot be negative" |}
  else None.

Definition AlgorithmType := string.
Definition TokenBucket : AlgorithmType := "token_bucket".
Definition FixedWindow : AlgorithmType := "fixed_window".
Definition SlidingWindow : AlgorithmType := "sliding_window".
Definition LeakyBucket : AlgorithmType := "leaky_bucket".

(** [func (a AlgorithmType) Validate() error]. *)
Definition AlgorithmType_Validate (a : AlgorithmType) : option ConfigError :=
  if decide (a = TokenBucket ∨ a = FixedWindow ∨ a = SlidingWindow ∨ a = LeakyBucket)
  then None
  else Some {| Field := "algorithm";
               Value := VAlgorithmType a;
               Reason := "must be one of: token_bucket, fixed_window, sliding_window, leaky_bucket" |}.

End Algorithm.

(** ** Package sync: the reader/writer lock of the mock clock *)
Module Sync.

Record RWMutex := { readers : nat; writer : bool }.

Definition unlocked : RWMutex := {| readers := 0; writer := false |}.

(** Each operation gives the lock's next state, or [None] when the call
    cannot return in a run with one goroutine: it would wait for ever,
    or it panics (unlocking a lock that is not held). *)
Definition RLock (mu : RWMutex) : option RWMutex :=
  if writer mu then None
  else Some {| readers := S (readers mu); writer := false |}.

Definition RUnlock (mu : RWMutex) : option RWMutex :=
  match readers mu with
  | O => None
  | S n => Some {| readers := n; writer := writer mu |}
  end.

Definition Lock (mu : RWMutex) : option RWMutex :=
  if writer mu then None
  else match readers mu with
       | O => Some {| readers := 0; writer := true |}
       | S _ => None
       end.

Definition Unlock (mu : RWMutex) : option RWMutex :=
  if writer mu then Some {| readers := readers mu; writer := false |}
  else None.

End Sync.

(** ** Package clock: the mock clock *)
Module Clock.

Record Mock := {
  mu : Sync.RWMutex;
  now : Time.Time;
  auto : bool;
  step : Time.Duration
}.

(** A method of [*Mock]: it reads and writes the receiver and either
    returns or does not. *)
Definition M (A : Type) : Type := Mock -> option (A * Mock).

#[global] Instance M_ret : MRet M := fun A a m => Some (a, m).

#[global] Instance M_bind : MBind M := fun A B k c m =>
  match c m with
  | Some (a, m') => k a m'
  | None => None
  end.

(** A lock operation on the field [m.mu]. *)
Definition on_mu (op : Sync.RWMutex -> option Sync.RWMutex) : M unit :=
  fun m => match op (mu m) with
           | Some mu' => Some (tt, {| mu := mu'; now := now m; auto := auto m; step := step m |})
           | None => None
           end.

Definition read {A} (field : Mock -> A) : M A := fun m => Some (field m, m).

Definition set_now (t : Time.Time) : M unit :=
  fun m => Some (tt, {| mu := mu m; now := t; auto := auto m; step := step m |}).

Definition set_auto (b : bool) : M unit :=
  fun m => Some (tt, {| mu := mu m; now := now m; auto := b; step := step m |}).

Definition set_step (d : Time.Duration) : M unit :=
  fun m => Some (tt, {| mu := mu m; now := now m; auto := auto m; step := d |}).

(** [func NewMockAt(t time.Time) *Mock]. *)
Definition NewMockAt (t : Time.Time) : Mock :=
  {| mu := Sync.unlocked; now := t; auto := false; step := 0 |}.

(** [func (m *Mock) Now() time.Time]; the deferred [RUnlock] runs last. *)
Definition Now : M Time.Time :=
  on_mu Sync.RLock ;;
  now0 ← read now;
  a ← read auto;
  (if a : bool then
     on_mu Sync.RUnlock ;;
     on_mu Sync.Lock ;;
     t ← read now;
     d ← read step;
     set_now (Time.Add t d) ;;
     on_mu Sync.Unlock ;;
     on_mu Sync.RLock
   else mret tt) ;;
  on_mu Sync.RUnlock ;;
  mret now0.

(** [func (m *Mock) Set(t time.Time)] ([Set] is a reserved word). *)
Definition Set_ (t : Time.Time) : M unit :=
  on_mu Sync.Lock ;;
  set_now t ;;
  on_mu Sync.Unlock.

(** [func (m *Mock) Advance(d time.Duration)]. *)
Definition Advance (d : Time.Duration) : M unit :=
  on_mu Sync.Lock ;;
  t ← read now;
  set_now (Time.Add t d) ;;
  on_mu Sync.Unlock.

(** [func (m *Mock) SetAutoAdvance(step time.Duration)]. *)
Definition SetAutoAdvance (s : Time.Duration) : M unit :=
  on_mu Sync.Lock ;;
  set_auto true ;;
  set_step s ;;
  on_mu Sync.Unlock.

(** [func (m *Mock) DisableAutoAdvance()]. *)
Definition DisableAutoAdvance : M unit :=
  on_mu Sync.Lock ;;
  set_auto false ;;
  on_mu Sync.Unlock.

(** [func (m *Mock) Since(t time.Time) time.Duration]. *)
Definition Since (t : Time.Time) : M Time.Duration :=
  n ← Now;
  mret (Time.Sub n t).

(** [k] calls of [Now] in a row, with the times they return. *)
Fixpoint Now_times (k : nat) : M (list Time.Time) :=
  match k with
  | O => mret []
  | S k =>
      t ← Now;
      ts ← Now_times k;
      mret (t :: ts)
  end.

End Clock.

(** ** Package storage: its errors *)
Module StorageErrors.

(** What the field [Err interface{}] of a [StorageError] holds: nothing, a
    message, or an error. *)
Inductive cause (E : Type) : Type :=
| CauseNil
| CauseString (s : string)
| CauseError (e : E).

Arguments CauseNil {E}.
Arguments CauseString {E} s.
Arguments CauseError {E} e.

(** Go's [error] interface values as this package meets them: nil, an
    [errors.New] value, an error wrapped by [fmt.Errorf], or a
    [*StorageError] with its three fields.  Pointers carry their
    address. *)
#[warnings="-register-all"] Inductive error : Type :=
| ErrNil
| errorString (p : Z) (s : string)
| wrapError (p : Z) (msg : string) (err : error)
| StorageError (p : Z) (Op Key : string) (Err : cause error).

(** [a == b] on interface values. *)
Definition error_eqb (a b : error) : bool :=
  match a, b with
  | ErrNil, ErrNil => true
  | errorString p _, errorString q _ => Z.eqb p q
  | wrapError p _ _, wrapError q _ _ => Z.eqb p q
  | StorageError p _ _ _, StorageError q _ _ _ => Z.eqb p q
  | _, _ => false
  end.

Definition is_nil (e : error) : bool :=
  match e with ErrNil => true | _ => false end.

(** The sentinels: three allocations of a [StorageError]. *)
Definition ErrKeyNotFound : error :=
  StorageError 11 "get" "" (CauseString "key not found").
Definition ErrStorageUnavailable : error :=
  StorageError 12 "connect" "" (CauseString "storage backend unavailable").
Definition ErrInvalidState : error :=
  StorageError 13 "deserialize" "" (CauseString "invalid state format").

(** [func (e *StorageError) Unwrap() error]: the cause when it is an
    error, nil otherwise. *)
Definition Unwrap (Err : cause error) : error :=
  match Err with
  | CauseError err => err
  | _ => ErrNil
  end.

(** The [Unwrap() error] method of the dynamic type, where it has one; no
    type here has an [Is] method. *)
Definition Unwrap_method (e : error) : option error :=
  match e with
  | wrapError _ _ err => Some err
  | StorageError _ _ _ Err => Some (Unwrap Err)
  | _ => None
  end.

(** The loop of [errors.is], one unit of fuel a turn. *)
Fixpoint is_loop (fuel : nat) (err target : error) : option bool :=
  match fuel with
  | O => None
  | S fuel =>
      if error_eqb err target then Some true
      else
        match Unwrap_method err with
        | Some err' => if is_nil err' then Some false else is_loop fuel err' target
        | None => Some false
        end
  end.

(** The number of [Unwrap] steps from an error to the end of its chain. *)
Fixpoint chain (e : error) : nat :=
  match e with
  | ErrNil => 0
  | errorString _ _ => 1
  | wrapError _ _ err => S (chain err)
  | StorageError _ _ _ (CauseError err) => S (chain err)
  | StorageError _ _ _ _ => 1
  end.

(** [errors.Is(err, target)]. *)
Definition errors_Is (err target : error) : bool :=
  if is_nil err || is_nil target then error_eqb err target
  else
    match is_loop (chain err) err target with
    | Some b => b
    | None => false
    end.

End StorageErrors.

(** * Vocabulary of the properties *)

Import Flexlimit Algorithm Clock.

(** The five strategies the switch of [Key] names. *)
Definition named_strategy (s : string) : Prop :=
  s = "ip" ∨ s = "user" ∨ s = "endpoint" ∨ s = "session" ∨ s = "global".

(** What the custom map of [rc] holds for [s]; a nil map holds nothing. *)
Definition custom_lookup (rc : RequestContext) (s : string) : option string :=
  match Custom rc with
  | Some custom => custom !! s
  | None => None
  end.

(** A request with an address, an endpoint and one custom entry. *)
Definition rc_example : RequestContext := {|
  IP := "1.2.3.4";
  UserID := "";
  Endpoint := "/api/search";
  SessionID := "";
  Custom := Some {[ "tenant_id" := "acme_corp" ]};
  Flexlimit.Metadata := None
|}.

(** The four algorithm names. *)
Definition valid_algorithm (a : string) : Prop :=
  a = "token_bucket" ∨ a = "fixed_window" ∨ a = "sliding_window" ∨ a = "leaky_bucket".

(** The three fallback strategies. *)
Definition valid_fallback (f : string) : Prop :=
  f = "allow_all" ∨ f = "deny_all" ∨ f = "local_memory".

(** A configuration with an unknown algorithm name that [Validate] accepts. *)
Definition cfg_unknown_algorithm : Config :=
  {| Rate := 100; Window := Time.Minute; BurstSize := 0; Algorithm := "bogus" |}.

(** The receiver with its clock moved to [t]; the lock is left free. *)
Definition at_time (m : Mock) (t : Time.Time) : Mock :=
  {| mu := Sync.unlocked; now := t; auto := auto m; step := step m |}.

(** The receiver with auto-advance switched on, by steps of [s]. *)
Definition auto_by (m : Mock) (s : Time.Duration) : Mock :=
  {| mu := Sync.unlocked; now := now m; auto := true; step := s |}.

(** Runs a method of the clock on a receiver whose lock is free. *)
Ltac run_clock m Hfree :=
  destruct m as [mu0 now0 auto0 step0]; simpl in Hfree; subst mu0;
  try destruct auto0; reflexivity.

(** The times [t], [t + s], ..., [t + (k-1) * s]. *)
Definition ticks (t : Time.Time) (s : Time.Duration) (k : nat) : list Time.Time :=
  map (fun i => t + Z.of_nat i * s) (seq 0 k).

(** Whether a string holds the separator ":" of a key. *)
Fixpoint has_colon (s : string) : bool :=
  match s with
  | EmptyString => false
  | String a s' => if Ascii.eqb a ":"%char then true else has_colon s'
  end.

(** A request from an IPv6 address whose custom map holds "ip:2001". *)
Definition rc_ipv6 : RequestContext := {|
  IP := "2001:db8";
  UserID := "";
  Endpoint := "";
  SessionID := "";
  Custom := Some {[ "ip:2001" := "db8" ]};
  Flexlimit.Metadata := None
|}.

(** A call of one method of the mock clock, and a run of calls made one
    after the other by one goroutine; the results are dropped. *)
Inductive call : Type :=
| CallNow
| CallSet (t : Time.Time)
| CallAdvance (d : Time.Duration)
| CallSetAutoAdvance (s : Time.Duration)
| CallDisableAutoAdvance
| CallSince (u : Time.Time).

Definition run (c : call) : M unit :=
  match c with
  | CallNow => Now ;; mret tt
  | CallSet t => Clock.Set_ t
  | CallAdvance d => Advance d
  | CallSetAutoAdvance s => SetAutoAdvance s
  | CallDisableAutoAdvance => DisableAutoAdvance
  | CallSince u => Since u ;; mret tt
  end.

Fixpoint run_all (cs : list call) : M unit :=
  match cs with
  | [] => mret tt
  | c :: cs => run c ;; run_all cs
  end.

(** Two users behind one address. *)
Definition rc_alice : RequestContext := {|
  IP := "10.0.0.7";
  UserID := "alice";
  Endpoint := "/api/search";
  SessionID := "s-1";
  Custom := None;
  Flexlimit.Metadata := None
|}.

Definition rc_bob : RequestContext := {|
  IP := "10.0.0.7";
  UserID := "bob";
  Endpoint := "/api/orders";
  SessionID := "";
  Custom := Some {[ "tenant_id" := "acme_corp" ]};
  Flexlimit.Metadata := None
|}.

(** * Properties *)

(** ** Key derivation *)

Lemma Key_custom rc s :
  ¬ named_strategy s →
  Key rc s = match custom_lookup rc s with
             | Some v => s +:+ ":" +:+ v
             | None => ""
             end.
Proof.
  intros Hs. unfold Key, custom_lookup.
  repeat (case_decide; [exfalso; apply Hs; unfold named_strategy; tauto |]).
  destruct (Custom rc) as [custom|]; reflexivity.
Qed.

(** C2.  [rc.Key(s)] is the prefixed field for the four field strategies
    when the field is not empty, the constant "global" for "global", the
    prefixed custom entry for any other strategy the custom map holds,
    and the empty string in every other case. *)
Theorem Key_by_strategy (rc : RequestContext) (s : string) :
  (s = "ip" → IP rc ≠ "" → Key rc s = "ip:" +:+ IP rc) ∧
  (s = "user" → UserID rc ≠ "" → Key rc s = "user:" +:+ UserID rc) ∧
  (s = "endpoint" → Endpoint rc ≠ "" → Key rc s = "endpoint:" +:+ Endpoint rc) ∧
  (s = "session" → SessionID rc ≠ "" → Key rc s = "session:" +:+ SessionID rc) ∧
  (s = "global" → Key rc s = "global") ∧
  (∀ v, ¬ named_strategy s → custom_lookup rc s = Some v → Key rc s = s +:+ ":" +:+ v) ∧
  ((s = "ip" ∧ IP rc = "") ∨ (s = "user" ∧ UserID rc = "") ∨
   (s = "endpoint" ∧ Endpoint rc = "") ∨ (s = "session" ∧ SessionID rc = "") ∨
   (¬ named_strategy s ∧ custom_lookup rc s = None) → Key rc s = "").
Proof.
  repeat split.
  - intros -> H. unfold Key. simpl. by rewrite decide_True.
  - intros -> H. unfold Key. simpl. by rewrite decide_True.
  - intros -> H. unfold Key. simpl. by rewrite decide_True.
  - intros -> H. unfold Key. simpl. by rewrite decide_True.
  - intros ->. reflexivity.
  - intros v Hs Hv. rewrite Key_custom by assumption. by rewrite Hv.
  - intros [[-> H]|[[-> H]|[[-> H]|[[-> H]|[Hs H]]]]].
    + unfold Key. simpl. rewrite decide_False; [done | by intros []].
    + unfold Key. simpl. rewrite decide_False; [done | by intros []].
    + unfold Key. simpl. rewrite decide_False; [done | by intros []].
    + unfold Key. simpl. rewrite decide_False; [done | by intros []].
    + rewrite Key_custom by assumption. by rewrite H.
Qed.

Lemma Key_by_strategy_witness :
  Key rc_example "ip" = "ip:1.2.3.4" ∧
  Key rc_example "tenant_id" = "tenant_id:acme_corp" ∧
  Key rc_example "user" = "" ∧
  Key rc_example "region" = "".
Proof.
  assert (Hn : ∀ s, s ≠ "ip" → s ≠ "user" → s ≠ "endpoint" → s ≠ "session" →
                    s ≠ "global" → ¬ named_strategy s).
  { unfold named_strategy. intros s ? ? ? ? ?. tauto. }
  split; [| split; [| split]].
  - destruct (Key_by_strategy rc_example "ip") as (H & _).
    apply H; [reflexivity | discriminate].
  - destruct (Key_by_strategy rc_example "tenant_id") as (_ & _ & _ & _ & _ & H & _).
    apply H; [apply Hn; discriminate | reflexivity].
  - destruct (Key_by_strategy rc_example "user") as (_ & _ & _ & _ & _ & _ & H).
    apply H. right; left. split; reflexivity.
  - destruct (Key_by_strategy rc_example "region") as (_ & _ & _ & _ & _ & _ & H).
    apply H. do 4 right. split; [apply Hn; discriminate | reflexivity].
Defined.

(** ** Validation of the enumerations *)

Lemma Flexlimit_AlgorithmType_Validate_None (a : string) :
  Flexlimit.AlgorithmType_Validate a = None ↔ valid_algorithm a.
Proof.
  unfold Flexlimit.AlgorithmType_Validate, valid_algorithm, Flexlimit.TokenBucket,
    Flexlimit.SlidingWindow, Flexlimit.FixedWindow, Flexlimit.LeakyBucket.
  case_decide; split; (tauto || discriminate).
Qed.

Lemma Algorithm_AlgorithmType_Validate_None (a : string) :
  Algorithm.AlgorithmType_Validate a = None ↔ valid_algorithm a.
Proof.
  unfold Algorithm.AlgorithmType_Validate, valid_algorithm, Algorithm.TokenBucket,
    Algorithm.SlidingWindow, Algorithm.FixedWindow, Algorithm.LeakyBucket.
  case_decide; split; (tauto || discriminate).
Qed.

(** C6.  Both [AlgorithmType.Validate] methods (package flexlimit and
    package algorithm) return nil exactly on the four algorithm names, and
    on every other value a configuration error whose field is "algorithm"
    and whose value is the rejected name. *)
Theorem AlgorithmType_Validate_spec (a : string) :
  (Flexlimit.AlgorithmType_Validate a = None ↔ valid_algorithm a) ∧
  (¬ valid_algorithm a →
     ∃ e, Flexlimit.AlgorithmType_Validate a = Some e ∧
          ice_Field e = "algorithm" ∧ ice_Value e = Flexlimit.VAlgorithmType a) ∧
  (Algorithm.AlgorithmType_Validate a = None ↔ valid_algorithm a) ∧
  (¬ valid_algorithm a →
     ∃ e, Algorithm.AlgorithmType_Validate a = Some e ∧
          Algorithm.Field e = "algorithm" ∧ Algorithm.Value e = Algorithm.VAlgorithmType a).
Proof.
  split; [apply Flexlimit_AlgorithmType_Validate_None | split].
  - intros H. rewrite <- Flexlimit_AlgorithmType_Validate_None in H.
    unfold Flexlimit.AlgorithmType_Validate in *.
    case_decide; [done |]. eexists. repeat split.
  - split; [apply Algorithm_AlgorithmType_Validate_None |].
    intros H. rewrite <- Algorithm_AlgorithmType_Validate_None in H.
    unfold Algorithm.AlgorithmType_Validate in *.
    case_decide; [done |]. eexists. repeat split.
Qed.

Lemma AlgorithmType_Validate_spec_witness :
  Flexlimit.AlgorithmType_Validate "sliding_window" = None ∧
  (∃ e, Flexlimit.AlgorithmType_Validate "Token_Bucket" = Some e ∧
        ice_Field e = "algorithm" ∧ ice_Value e = Flexlimit.VAlgorithmType "Token_Bucket") ∧
  Algorithm.AlgorithmType_Validate "leaky_bucket" = None ∧
  (∃ e, Algorithm.AlgorithmType_Validate "" = Some e ∧
        Algorithm.Field e = "algorithm" ∧ Algorithm.Value e = Algorithm.VAlgorithmType "").
Proof.
  assert (Hbad : ∀ a, a ≠ "token_bucket" → a ≠ "fixed_window" → a ≠ "sliding_window" →
                      a ≠ "leaky_bucket" → ¬ valid_algorithm a).
  { unfold valid_algorithm. intros a ? ? ? ?. tauto. }
  split; [| split; [| split]].
  - destruct (AlgorithmType_Validate_spec "sliding_window") as (H & _).
    apply H. right; right; left. reflexivity.
  - destruct (AlgorithmType_Validate_spec "Token_Bucket") as (_ & H & _).
    apply H. apply Hbad; discriminate.
  - destruct (AlgorithmType_Validate_spec "leaky_bucket") as (_ & _ & H & _).
    apply H. do 3 right. reflexivity.
  - destruct (AlgorithmType_Validate_spec "") as (_ & _ & _ & H).
    apply H. apply Hbad; discriminate.
Defined.

(** C7.  [FallbackStrategy.Validate] returns nil exactly on the three
    strategy names, and on every other value an [InvalidConfigError] whose
    field is "fallback_strategy" and whose value is the rejected name. *)
Theorem FallbackStrategy_Validate_spec (f : string) :
  (FallbackStrategy_Validate f = None ↔ valid_fallback f) ∧
  (¬ valid_fallback f →
     ∃ e, FallbackStrategy_Validate f = Some e ∧
          ice_Field e = "fallback_strategy" ∧ ice_Value e = VFallbackStrategy f).
Proof.
  unfold FallbackStrategy_Validate, valid_fallback, AllowAll, DenyAll, LocalMemory.
  repeat split.
  - case_decide; [tauto | discriminate].
  - intros H. rewrite decide_True; [reflexivity | tauto].
  - intros H. rewrite decide_False by tauto. eexists. repeat split.
Qed.

Lemma FallbackStrategy_Validate_spec_witness :
  FallbackStrategy_Validate "deny_all" = None ∧
  (∃ e, FallbackStrategy_Validate "allow" = Some e ∧
        ice_Field e = "fallback_strategy" ∧ ice_Value e = VFallbackStrategy "allow").
Proof.
  split.
  - destruct (FallbackStrategy_Validate_spec "deny_all") as (H & _).
    apply H. right; left. reflexivity.
  - destruct (FallbackStrategy_Validate_spec "allow") as (_ & H).
    apply H. unfold valid_fallback. intros [H0|[H0|H0]]; discriminate H0.
Defined.

(** ** The default options *)

(** C9.  [defaultOptions] fails open ("allow_all"), selects the token
    bucket, bounds the keys by 10000, cleans up every five minutes, has no
    burst, and leaves storage, clock, metrics and the three callbacks nil. *)
Theorem defaultOptions_fields :
  fallbackStrategy defaultOptions = AllowAll ∧
  algorithm defaultOptions = Flexlimit.TokenBucket ∧
  maxKeys defaultOptions = 10000 ∧
  cleanupInterval defaultOptions = 5 * 60 * 1000000000 ∧
  burstSize defaultOptions = 0 ∧
  storage defaultOptions = None ∧
  clock defaultOptions = None ∧
  metrics defaultOptions = None ∧
  onLimit defaultOptions = None ∧
  onAllow defaultOptions = None ∧
  onFallback defaultOptions = None.
Proof. repeat split. Qed.

(** ** Validation of an algorithm configuration *)

(** C3, as stated, fails: [Config.Validate] returns nil for a
    configuration whose algorithm name is none of the four. *)
Lemma Validate_accepts_unknown_algorithm :
  Validate cfg_unknown_algorithm = None ∧
  0 < Rate cfg_unknown_algorithm ∧ 0 < Window cfg_unknown_algorithm ∧
  0 ≤ BurstSize cfg_unknown_algorithm ∧
  ¬ valid_algorithm (Algorithm cfg_unknown_algorithm).
Proof.
  repeat split; try reflexivity; try discriminate.
  unfold valid_algorithm. simpl. intros [H|[H|[H|H]]]; discriminate H.
Qed.

(** C3, amended.  [Config.Validate] returns nil exactly when the rate and
    the window are positive and the burst size is not negative; it does not
    read the algorithm name, which [AlgorithmType.Validate] checks: the two
    together return nil exactly on the four conditions.  Otherwise
    [Config.Validate] returns a [ConfigError] for the first offending
    field, in the order rate, window, burst size. *)
Theorem Validate_spec (c : Config) :
  (Validate c = None ↔ 0 < Rate c ∧ 0 < Window c ∧ 0 ≤ BurstSize c) ∧
  (Rate c ≤ 0 →
     Validate c = Some {| Field := "rate"; Value := VInt64 (Rate c);
                          Reason := "must be positive" |}) ∧
  (0 < Rate c → Window c ≤ 0 →
     Validate c = Some {| Field := "window"; Value := VDuration (Window c);
                          Reason := "must be positive" |}) ∧
  (0 < Rate c → 0 < Window c → BurstSize c < 0 →
     Validate c = Some {| Field := "burst_size"; Value := VInt64 (BurstSize c);
                          Reason := "cannot be negative" |}) ∧
  (∀ a, Validate {| Rate := Rate c; Window := Window c;
                    BurstSize := BurstSize c; Algorithm := a |} = Validate c) ∧
  (Validate c = None ∧ Algorithm.AlgorithmType_Validate (Algorithm c) = None ↔
   0 < Rate c ∧ 0 < Window c ∧ 0 ≤ BurstSize c ∧ valid_algorithm (Algorithm c)).
Proof.
  assert (Hnum : Validate c = None ↔ 0 < Rate c ∧ 0 < Window c ∧ 0 ≤ BurstSize c).
  { unfold Validate.
    destruct (Z.leb_spec (Rate c) 0), (Z.leb_spec (Window c) 0),
      (Z.ltb_spec (BurstSize c) 0); split; intros; try discriminate; try lia;
      reflexivity. }
  split; [exact Hnum |].
  rewrite Hnum, Algorithm_AlgorithmType_Validate_None.
  unfold Validate. simpl.
  destruct (Z.leb_spec (Rate c) 0), (Z.leb_spec (Window c) 0), (Z.ltb_spec (BurstSize c) 0);
    repeat split; intros; try lia; try reflexivity; tauto.
Qed.

Lemma Validate_spec_witness :
  Validate {| Rate := 10; Window := 1000; BurstSize := 0; Algorithm := "nonsense" |} = None ∧
  Validate {| Rate := 0; Window := 1000; BurstSize := -1; Algorithm := "token_bucket" |}
    = Some {| Field := "rate"; Value := VInt64 0; Reason := "must be positive" |} ∧
  Validate {| Rate := 10; Window := 0; BurstSize := -1; Algorithm := "token_bucket" |}
    = Some {| Field := "window"; Value := VDuration 0; Reason := "must be positive" |} ∧
  Validate {| Rate := 10; Window := 1000; BurstSize := -1; Algorithm := "token_bucket" |}
    = Some {| Field := "burst_size"; Value := VInt64 (-1); Reason := "cannot be negative" |}.
Proof.
  split; [| split; [| split]].
  - apply (proj1 (Validate_spec
             {| Rate := 10; Window := 1000; BurstSize := 0; Algorithm := "nonsense" |})).
    simpl. lia.
  - apply (proj1 (proj2 (Validate_spec
             {| Rate := 0; Window := 1000; BurstSize := -1; Algorithm := "token_bucket" |}))).
    simpl. lia.
  - apply (proj1 (proj2 (proj2 (Validate_spec
             {| Rate := 10; Window := 0; BurstSize := -1; Algorithm := "token_bucket" |}))));
      simpl; lia.
  - apply (proj1 (proj2 (proj2 (proj2 (Validate_spec
             {| Rate := 10; Window := 1000; BurstSize := -1; Algorithm := "token_bucket" |})))));
      simpl; lia.
Defined.

(** ** Errors *)

(** The loop of [errors.Is] ends within [chain err] turns, so [errors_Is]
    never runs out of fuel, and more fuel does not change its answer. *)
Lemma is_loop_total (err target : error) :
  is_nil err = false → ∃ b, is_loop (chain err) err target = Some b.
Proof.
  induction err as [| p s | | p msg err IH | p e | p e | p B O K err IH]; intros Hnil;
    try discriminate Hnil; cbn [chain is_loop Is_method Unwrap_method];
    repeat match goal with
           | |- ∃ b, (if ?c then _ else _) = Some b => destruct c eqn:?; eauto
           end.
Qed.

Lemma is_loop_more_fuel (n m : nat) (err target : error) (b : bool) :
  is_loop n err target = Some b → (n ≤ m)%nat → is_loop m err target = Some b.
Proof.
  revert m err. induction n as [| n IH]; intros m err H Hle; [discriminate H |].
  destruct m as [| m]; [lia |]. simpl in *.
  destruct (error_eqb err target); [assumption |].
  destruct (match Is_method err with Some Is => Is target | None => false end);
    [assumption |].
  destruct (Unwrap_method err) as [err' |]; [| assumption].
  destruct (is_nil err'); [assumption |]. apply IH; [assumption | lia].
Qed.

Lemma chain_Unwrap (err err' : error) :
  Unwrap_method err = Some err' → chain err = S (chain err').
Proof. destruct err; intros [= <-]; reflexivity. Qed.

(** [errors.Is] on a non-nil error and a non-nil target, one turn of the
    loop at a time. *)
Lemma errors_Is_unfold (err target : error) :
  is_nil err = false → is_nil target = false →
  errors_Is err target =
    if error_eqb err target then true
    else if match Is_method err with Some Is => Is target | None => false end then true
    else match Unwrap_method err with
         | Some err' => if is_nil err' then false else errors_Is err' target
         | None => false
         end.
Proof.
  intros He Ht. unfold errors_Is at 1. rewrite He, Ht. cbn [orb].
  destruct (chain err) as [| n] eqn:Hc; [by destruct err |].
  cbn [is_loop].
  destruct (error_eqb err target); [reflexivity |].
  destruct (match Is_method err with Some Is => Is target | None => false end);
    [reflexivity |].
  destruct (Unwrap_method err) as [err' |] eqn:Hu; [| reflexivity].
  destruct (is_nil err') eqn:E; [reflexivity |].
  unfold errors_Is. rewrite E, Ht. cbn [orb].
  apply chain_Unwrap in Hu. rewrite Hu in Hc. by injection Hc as <-.
Qed.

(** C8.  Every [*StorageError], whatever its backend, operation, key and
    cause, matches [ErrStorageUnavailable] under [errors.Is]: its [Is]
    method looks at the target only, so this sentinel tells no two storage
    errors apart. *)
Theorem StorageError_Is_ErrStorageUnavailable
    (p : addr) (Backend Operation Key : string) (Err : error) :
  errors_Is (StorageErr p Backend Operation Key Err) ErrStorageUnavailable = true ∧
  Is_method (StorageErr p Backend Operation Key Err)
    = Some (fun target => error_eqb target ErrStorageUnavailable) ∧
  (∀ q Backend' Operation' Key' Err',
     errors_Is (StorageErr q Backend' Operation' Key' Err') ErrStorageUnavailable
     = errors_Is (StorageErr p Backend Operation Key Err) ErrStorageUnavailable).
Proof.
  assert (H : ∀ q B O K E, errors_Is (StorageErr q B O K E) ErrStorageUnavailable = true).
  { intros. rewrite errors_Is_unfold; reflexivity. }
  split; [apply H | split; [reflexivity |]].
  intros. by rewrite !H.
Qed.

(** A storage error whose cause is only a missing key still matches the
    sentinel for an unreachable backend. *)
Example StorageError_key_not_found :
  errors_Is (StorageErr 100 "memory" "get" "user:123" ErrKeyNotFound) ErrStorageUnavailable = true.
Proof. reflexivity. Qed.

Lemma errors_Is_nil_l (target : error) :
  errors_Is ErrNil target = is_nil target.
Proof. by destruct target. Qed.

(** C4, as stated, fails: for the cancellation error [context.Canceled]
    itself, [wrapContextError] returns the package's own sentinel, which is
    another error value and no longer matches [context.Canceled]. *)
Lemma wrapContextError_not_verbatim :
  errors_Is context_Canceled context_Canceled = true ∧
  wrapContextError context_Canceled = ErrContextCanceled ∧
  wrapContextError context_Canceled ≠ context_Canceled ∧
  error_eqb (wrapContextError context_Canceled) context_Canceled = false ∧
  errors_Is (wrapContextError context_Canceled) context_Canceled = false.
Proof. repeat split. discriminate. Qed.

(** C4, amended.  [wrapContextError] maps nil to nil; an error that matches
    [context.Canceled] to the sentinel [ErrContextCanceled]; any other error
    that matches [context.DeadlineExceeded] to the sentinel
    [ErrContextDeadlineExceeded]; and returns every other error as it is.
    For a cancellation or a deadline error the result is still an error,
    but never the argument itself, and it no longer matches the context
    package's error. *)
Theorem wrapContextError_spec (e : error) :
  wrapContextError ErrNil = ErrNil ∧
  (errors_Is e context_Canceled = true →
     wrapContextError e = ErrContextCanceled ∧
     error_eqb (wrapContextError e) e = false ∧
     errors_Is (wrapContextError e) context_Canceled = false) ∧
  (errors_Is e context_Canceled = false →
   errors_Is e context_DeadlineExceeded = true →
     wrapContextError e = ErrContextDeadlineExceeded ∧
     error_eqb (wrapContextError e) e = false ∧
     errors_Is (wrapContextError e) context_DeadlineExceeded = false) ∧
  (errors_Is e context_Canceled = false →
   errors_Is e context_DeadlineExceeded = false →
     wrapContextError e = e).
Proof.
  split; [reflexivity |]. split; [| split].
  - intros H.
    assert (He : is_nil e = false).
    { destruct e; try reflexivity. by rewrite errors_Is_nil_l in H. }
    assert (Hw : wrapContextError e = ErrContextCanceled).
    { unfold wrapContextError. by rewrite He, H. }
    rewrite Hw. split; [reflexivity | split; [| reflexivity]].
    destruct e; try reflexivity. unfold ErrContextCanceled, error_eqb.
    destruct (Z.eqb_spec 6 p) as [<- |]; [| reflexivity].
    exfalso. by vm_compute in H.
  - intros Hc H.
    assert (He : is_nil e = false).
    { destruct e; try reflexivity. by rewrite errors_Is_nil_l in H. }
    assert (Hw : wrapContextError e = ErrContextDeadlineExceeded).
    { unfold wrapContextError. by rewrite He, Hc, H. }
    rewrite Hw. split; [reflexivity | split; [| reflexivity]].
    destruct e; try reflexivity. unfold ErrContextDeadlineExceeded, error_eqb.
    destruct (Z.eqb_spec 7 p) as [<- |]; [| reflexivity].
    exfalso. by vm_compute in H.
  - intros Hc Hd. unfold wrapContextError. rewrite Hc, Hd. by destruct e.
Qed.

Lemma wrapContextError_spec_witness :
  wrapContextError (wrapError 50 "allow user:123" context_Canceled) = ErrContextCanceled ∧
  wrapContextError (StorageErr 51 "redis" "get" "ip:1.2.3.4" context_DeadlineExceeded)
    = ErrContextDeadlineExceeded ∧
  wrapContextError ErrKeyNotFound = ErrKeyNotFound.
Proof.
  split; [| split].
  - apply (proj1 (proj2 (wrapContextError_spec
             (wrapError 50 "allow user:123" context_Canceled)))).
    reflexivity.
  - apply (proj1 (proj2 (proj2 (wrapContextError_spec
             (StorageErr 51 "redis" "get" "ip:1.2.3.4" context_DeadlineExceeded)))));
      reflexivity.
  - apply (proj2 (proj2 (proj2 (wrapContextError_spec ErrKeyNotFound)))); reflexivity.
Defined.

(** ** The mock clock *)

(** With the lock free, [Now] returns the time it reads, and moves the
    clock by the step when auto-advance is on. *)
Lemma Now_free (m : Mock) :
  mu m = Sync.unlocked →
  Now m = Some (now m, at_time m (if auto m then Time.Add (now m) (step m) else now m)).
Proof. intros Hfree. run_clock m Hfree. Qed.

Lemma Set_free (m : Mock) (t : Time.Time) :
  mu m = Sync.unlocked → Set_ t m = Some (tt, at_time m t).
Proof. intros Hfree. run_clock m Hfree. Qed.

Lemma Advance_free (m : Mock) (d : Time.Duration) :
  mu m = Sync.unlocked → Advance d m = Some (tt, at_time m (Time.Add (now m) d)).
Proof. intros Hfree. run_clock m Hfree. Qed.

Lemma SetAutoAdvance_free (m : Mock) (s : Time.Duration) :
  mu m = Sync.unlocked → SetAutoAdvance s m = Some (tt, auto_by m s).
Proof. intros Hfree. run_clock m Hfree. Qed.

Lemma ticks_S t s k : ticks t s (S k) = t :: ticks (t + s) s k.
Proof.
  unfold ticks. simpl. f_equal; [lia |].
  rewrite <- seq_shift, map_map. apply map_ext. intros i. lia.
Qed.

Lemma Now_times_auto (k : nat) (m : Mock) :
  mu m = Sync.unlocked → auto m = true →
  Now_times k m = Some (ticks (now m) (step m) k, at_time m (now m + Z.of_nat k * step m)).
Proof.
  revert m. induction k as [| k IH]; intros m Hfree Hauto.
  - destruct m as [mu0 now0 auto0 step0]; simpl in *; subst.
    unfold mret, M_ret, at_time, ticks. simpl. do 3 f_equal. lia.
  - cbn [Now_times]. unfold mbind, M_bind at 1.
    rewrite (Now_free m Hfree), Hauto.
    unfold mbind, M_bind at 1. rewrite IH by (try reflexivity; exact Hauto).
    rewrite ticks_S. unfold mret, M_ret, at_time, Time.Add. simpl.
    do 3 f_equal. lia.
Qed.

(** C10.  Used by one goroutine at a time (the lock is free when a method
    is called), the mock clock is deterministic: [Now] after [Set t]
    returns [t]; [Now] after [Advance d] returns the previous time plus
    [d]; with auto-advance on, [Now] returns the time before the step and
    moves the clock by the step, so that [k] calls after [SetAutoAdvance s]
    return [t0], [t0 + s], ..., [t0 + (k-1) * s]; and [Since u] is what
    [Now] returns minus [u]. *)
Theorem Mock_sequential (m : Mock) :
  mu m = Sync.unlocked →
  (∀ t, (Set_ t ;; Now) m = Some (t, at_time m (if auto m then t + step m else t))) ∧
  (∀ d, (Advance d ;; Now) m
        = Some (now m + d,
                at_time m (if auto m then now m + d + step m else now m + d))) ∧
  (auto m = true → Now m = Some (now m, at_time m (now m + step m))) ∧
  (∀ s k, (SetAutoAdvance s ;; Now_times k) m
          = Some (ticks (now m) s k, at_time (auto_by m s) (now m + Z.of_nat k * s))) ∧
  (∀ u, Since u m
        = Some (Time.Sub (now m) u,
                at_time m (if auto m then now m + step m else now m))) ∧
  (∀ u, Time.minDuration ≤ now m - u ≤ Time.maxDuration → Time.Sub (now m) u = now m - u).
Proof.
  intros Hfree. repeat split.
  - intros t. unfold mbind, M_bind. rewrite (Set_free m t Hfree).
    rewrite Now_free by reflexivity. reflexivity.
  - intros d. unfold mbind, M_bind. rewrite (Advance_free m d Hfree).
    rewrite Now_free by reflexivity. reflexivity.
  - intros Hauto. rewrite (Now_free m Hfree), Hauto. reflexivity.
  - intros s k. unfold mbind, M_bind. rewrite (SetAutoAdvance_free m s Hfree).
    rewrite Now_times_auto by reflexivity. reflexivity.
  - intros u. unfold Since, mbind, M_bind. rewrite (Now_free m Hfree). reflexivity.
  - intros u Hu. unfold Time.Sub.
    destruct (Z.ltb_spec (now m - u) Time.minDuration); [lia |].
    destruct (Z.ltb_spec Time.maxDuration (now m - u)); [lia | reflexivity].
Qed.

Lemma Mock_sequential_witness :
  (SetAutoAdvance 5 ;; Now_times 3) (NewMockAt 1000)
  = Some ([1000; 1005; 1010], at_time (auto_by (NewMockAt 1000) 5) 1015).
Proof.
  apply (proj1 (proj2 (proj2 (proj2 (Mock_sequential (NewMockAt 1000) eq_refl)))) 5 3%nat).
Defined.

(** The hypothesis on the lock matters: while another reader holds the
    lock, an auto-advancing [Now] waits for the write lock, and alone it
    does not return. *)
Example Now_under_reader :
  Now {| mu := {| Sync.readers := 1; Sync.writer := false |};
         now := 0; auto := true; step := 1 |} = None.
Proof. reflexivity. Qed.

(** * Further properties of the code *)

(** ** Keys: when they are empty and when they collide *)

Lemma append_nil_l (t : string) : "" +:+ t = t.
Proof. reflexivity. Qed.

Lemma append_cons_l (a : ascii) (s t : string) : String a s +:+ t = String a (s +:+ t).
Proof. reflexivity. Qed.

Lemma has_colon_app (s v : string) : has_colon (s +:+ ":" +:+ v) = true.
Proof.
  induction s as [| a s IH]; [reflexivity |].
  rewrite append_cons_l. cbn [has_colon]. by destruct (Ascii.eqb a ":"%char).
Qed.

Lemma named_strategy_no_colon (s : string) : named_strategy s → has_colon s = false.
Proof. intros [-> | [-> | [-> | [-> | ->]]]]; reflexivity. Qed.

(** Two keys with strategies free of ":" agree only on the same strategy. *)
Lemma prefix_before_colon (s1 s2 v1 v2 : string) :
  has_colon s1 = false → has_colon s2 = false →
  s1 +:+ ":" +:+ v1 = s2 +:+ ":" +:+ v2 → s1 = s2 ∧ v1 = v2.
Proof.
  revert s2. induction s1 as [| a s1 IH]; intros [| b s2] H1 H2 Heq;
    rewrite ?append_cons_l, ?append_nil_l in Heq; cbn [has_colon] in H1, H2.
  - by injection Heq as ->.
  - injection Heq as <- _. discriminate H2.
  - injection Heq as -> _. discriminate H1.
  - destruct (Ascii.eqb a ":"%char) eqn:Ea; [discriminate |].
    destruct (Ascii.eqb b ":"%char) eqn:Eb; [discriminate |].
    injection Heq as -> Heq. destruct (IH s2 H1 H2 Heq) as [-> ->]. done.
Qed.

(** A key that is not empty is "global", or the strategy, ":" and the
    value it was derived from. *)
Lemma Key_shape (rc : RequestContext) (s : string) :
  Key rc s ≠ "" →
  (s = "global" ∧ Key rc s = "global") ∨ (s ≠ "global" ∧ ∃ v, Key rc s = s +:+ ":" +:+ v).
Proof.
  unfold Key. repeat case_decide; subst; try done;
    try (intros _; right; split; [discriminate | eexists; reflexivity]).
  - intros _. by left.
  - destruct (Custom rc) as [custom |]; [| done].
    destruct (custom !! s) as [v |]; [| done].
    intros _. right. split; [done | by eexists].
Qed.

Lemma append_colon_nonempty (s v : string) : s +:+ ":" +:+ v ≠ "".
Proof. intros H. apply (f_equal has_colon) in H. by rewrite has_colon_app in H. Qed.

(** X1.  [Key] returns the empty string only for a named field strategy
    whose field is empty, or for another strategy the custom map does not
    hold: a strategy that has a value never yields the empty key, not even
    a custom entry whose value is empty. *)
Theorem Key_empty_iff (rc : RequestContext) (s : string) :
  Key rc s = "" ↔
  (s = "ip" ∧ IP rc = "") ∨ (s = "user" ∧ UserID rc = "") ∨
  (s = "endpoint" ∧ Endpoint rc = "") ∨ (s = "session" ∧ SessionID rc = "") ∨
  (¬ named_strategy s ∧ custom_lookup rc s = None).
Proof.
  destruct (decide (s = "ip")) as [-> | Hip].
  { unfold Key. simpl. case_decide as H.
    - split; [intros E; by apply (append_colon_nonempty "ip") in E |].
      intros [[_ E] | [[E _] | [[E _] | [[E _] | [E _]]]]]; try done.
      exfalso. apply E. by left.
    - split; [| done]. intros _. left. split; [done |].
      by destruct (decide (IP rc = "")). }
  destruct (decide (s = "user")) as [-> | Huser].
  { unfold Key. simpl. case_decide as H.
    - split; [intros E; by apply (append_colon_nonempty "user") in E |].
      intros [[E _] | [[_ E] | [[E _] | [[E _] | [E _]]]]]; try done.
      exfalso. apply E. right. by left.
    - split; [| done]. intros _. right. left. split; [done |].
      by destruct (decide (UserID rc = "")). }
  destruct (decide (s = "endpoint")) as [-> | Hend].
  { unfold Key. simpl. case_decide as H.
    - split; [intros E; by apply (append_colon_nonempty "endpoint") in E |].
      intros [[E _] | [[E _] | [[_ E] | [[E _] | [E _]]]]]; try done.
      exfalso. apply E. do 2 right. by left.
    - split; [| done]. intros _. do 2 right. left. split; [done |].
      by destruct (decide (Endpoint rc = "")). }
  destruct (decide (s = "session")) as [-> | Hses].
  { unfold Key. simpl. case_decide as H.
    - split; [intros E; by apply (append_colon_nonempty "session") in E |].
      intros [[E _] | [[E _] | [[E _] | [[_ E] | [E _]]]]]; try done.
      exfalso. apply E. do 3 right. by left.
    - split; [| done]. intros _. do 3 right. left. split; [done |].
      by destruct (decide (SessionID rc = "")). }
  destruct (decide (s = "global")) as [-> | Hglo].
  { split; [discriminate |].
    intros [[E _] | [[E _] | [[E _] | [[E _] | [E _]]]]]; try done.
    exfalso. apply E. by do 4 right. }
  assert (Hn : ¬ named_strategy s) by (unfold named_strategy; tauto).
  rewrite (Key_custom rc s Hn).
  destruct (custom_lookup rc s) as [v |].
  - split; [intros E; by apply append_colon_nonempty in E |].
    intros [[E _] | [[E _] | [[E _] | [[E _] | [_ E]]]]]; done.
  - split; [| done]. intros _. do 4 right. done.
Qed.

Lemma Key_empty_iff_witness :
  Key rc_example "session" = "" ∧ Key rc_example "tenant_id" ≠ "".
Proof.
  split.
  - apply (proj2 (Key_empty_iff rc_example "session")).
    do 3 right. left. split; reflexivity.
  - intros H. apply (proj1 (Key_empty_iff rc_example "tenant_id")) in H.
    destruct H as [[E _] | [[E _] | [[E _] | [[E _] | [_ E]]]]]; discriminate E.
Defined.

(** X2.  Keys of different dimensions never collide, also across
    requests, as long as the strategy names hold no ":": two equal keys
    that are not empty come from the same strategy. *)
Theorem Key_no_collision (rc1 rc2 : RequestContext) (s1 s2 : string) :
  has_colon s1 = false → has_colon s2 = false →
  Key rc1 s1 ≠ "" → Key rc1 s1 = Key rc2 s2 → s1 = s2.
Proof.
  intros H1 H2 Hne Heq.
  assert (Hne2 : Key rc2 s2 ≠ "") by (by rewrite <- Heq).
  destruct (Key_shape rc1 s1 Hne) as [[-> E1] | [_ [v1 E1]]];
    destruct (Key_shape rc2 s2 Hne2) as [[-> E2] | [_ [v2 E2]]]; [done | | |].
  - rewrite E1, E2 in Heq. apply (f_equal has_colon) in Heq.
    by rewrite has_colon_app in Heq.
  - rewrite E1, E2 in Heq. apply (f_equal has_colon) in Heq.
    by rewrite has_colon_app in Heq.
  - rewrite E1, E2 in Heq. by destruct (prefix_before_colon s1 s2 v1 v2 H1 H2 Heq).
Qed.

Lemma Key_no_collision_witness :
  Key rc_example "ip" ≠ Key rc_example "endpoint".
Proof.
  intros H. assert (E : "ip" = "endpoint"); [| discriminate E].
  apply (Key_no_collision rc_example rc_example "ip" "endpoint");
    [reflexivity | reflexivity | discriminate | exact H].
Defined.

(** X3.  With a ":" in a custom strategy name two dimensions can share a
    key: for an address [a:b] (as every IPv6 address is), the custom
    strategy "ip:a" with value [b] derives the key of the strategy "ip". *)
Theorem Key_collision_with_colon (rc : RequestContext) (a b : string) :
  IP rc = a +:+ ":" +:+ b →
  custom_lookup rc ("ip:" +:+ a) = Some b →
  Key rc ("ip:" +:+ a) = Key rc "ip" ∧ Key rc "ip" ≠ "" ∧ "ip:" +:+ a ≠ "ip".
Proof.
  intros Hip Hc.
  assert (Hne : "ip:" +:+ a ≠ "ip").
  { rewrite !append_cons_l. discriminate. }
  assert (Hn : ¬ named_strategy ("ip:" +:+ a)).
  { intros [H | [H | [H | [H | H]]]]; rewrite !append_cons_l in H; discriminate H. }
  assert (Hk : Key rc "ip" = "ip:" +:+ a +:+ ":" +:+ b).
  { unfold Key. simpl. rewrite decide_True; [by rewrite Hip |].
    rewrite Hip. apply append_colon_nonempty. }
  split; [| split; [| exact Hne]].
  - rewrite (Key_custom rc _ Hn), Hc, Hk. reflexivity.
  - rewrite Hk. apply (append_colon_nonempty "ip").
Qed.

Lemma Key_collision_with_colon_witness :
  Key rc_ipv6 "ip:2001" = Key rc_ipv6 "ip" ∧ Key rc_ipv6 "ip" ≠ "" ∧ "ip:2001" ≠ "ip".
Proof.
  apply (Key_collision_with_colon rc_ipv6 "2001" "db8"); reflexivity.
Defined.

(** X4.  Within one dimension the key tells the values apart: two
    requests with the same key, not empty, for a strategy have the same
    address, user, endpoint or session, or the same custom entry. *)
Theorem Key_same_value (rc1 rc2 : RequestContext) (s : string) :
  Key rc1 s ≠ "" → Key rc1 s = Key rc2 s →
  (s = "ip" → IP rc1 = IP rc2) ∧
  (s = "user" → UserID rc1 = UserID rc2) ∧
  (s = "endpoint" → Endpoint rc1 = Endpoint rc2) ∧
  (s = "session" → SessionID rc1 = SessionID rc2) ∧
  (¬ named_strategy s → custom_lookup rc1 s = custom_lookup rc2 s).
Proof.
  intros Hne Heq.
  assert (Hne2 : Key rc2 s ≠ "") by (by rewrite <- Heq).
  assert (Hfield : ∀ (name : string) (f1 f2 : string),
            (if decide (f1 ≠ "") then name +:+ ":" +:+ f1 else "")
            = (if decide (f2 ≠ "") then name +:+ ":" +:+ f2 else "") →
            (if decide (f1 ≠ "") then name +:+ ":" +:+ f1 else "") ≠ "" → f1 = f2).
  { intros name f1 f2 E N. repeat case_decide; try done.
    by apply (inj (String.app name)), (inj (String.app ":")) in E. }
  repeat split.
  - intros ->. by apply (Hfield "ip").
  - intros ->. by apply (Hfield "user").
  - intros ->. by apply (Hfield "endpoint").
  - intros ->. by apply (Hfield "session").
  - intros Hn. rewrite !(Key_custom _ s Hn) in *.
    destruct (custom_lookup rc1 s) as [v1 |], (custom_lookup rc2 s) as [v2 |]; try done.
    by apply (inj (String.app s)), (inj (String.app ":")) in Heq as ->.
Qed.

Lemma Key_same_value_witness :
  Key rc_alice "ip" = Key rc_bob "ip" ∧
  IP rc_alice = IP rc_bob ∧
  Key rc_alice "user" ≠ Key rc_bob "user".
Proof.
  split; [reflexivity | split].
  - apply (proj1 (Key_same_value rc_alice rc_bob "ip" ltac:(discriminate) eq_refl)).
    reflexivity.
  - intros Hkey.
    assert (E : UserID rc_alice = UserID rc_bob); [| discriminate E].
    apply (proj1 (proj2 (Key_same_value rc_alice rc_bob "user" ltac:(discriminate) Hkey))).
    reflexivity.
Defined.

(** ** Errors: what [errors.Is] finds in each error type *)

Lemma error_eqb_sym (a b : error) : error_eqb a b = error_eqb b a.
Proof. destruct a, b; simpl; try reflexivity; apply Z.eqb_sym. Qed.

(** [errors.Is] on an error with neither [Is] nor [Unwrap] is [==]. *)
Lemma errors_Is_leaf (err target : error) :
  Is_method err = None → Unwrap_method err = None →
  errors_Is err target = error_eqb err target.
Proof.
  intros Hi Hu. destruct (is_nil err) eqn:He.
  { unfold errors_Is. by rewrite He. }
  destruct (is_nil target) eqn:Ht.
  { unfold errors_Is. by rewrite He, Ht. }
  rewrite errors_Is_unfold, Hi, Hu by assumption.
  by destruct (error_eqb err target).
Qed.

(** X5.  A [*LimitExceededError] matches, under [errors.Is], itself and
    the sentinel [ErrRateLimitExceeded], and nothing else, whatever its
    fields. *)
Theorem LimitExceededError_Is (p : addr) (e : LimitExceededError) (target : error) :
  errors_Is (LimitExceededErr p e) target
  = error_eqb (LimitExceededErr p e) target || error_eqb target ErrRateLimitExceeded.
Proof.
  destruct (is_nil target) eqn:Ht.
  { destruct target; try discriminate Ht. reflexivity. }
  rewrite errors_Is_unfold by done. cbn [Is_method Unwrap_method is_nil ErrRateLimitExceeded].
  fold ErrRateLimitExceeded.
  rewrite (errors_Is_leaf ErrRateLimitExceeded) by reflexivity.
  rewrite (error_eqb_sym ErrRateLimitExceeded target).
  destruct (error_eqb (LimitExceededErr p e) target),
    (error_eqb target ErrRateLimitExceeded); reflexivity.
Qed.

(** X6.  An [*InvalidConfigError] matches itself and the sentinel
    [ErrInvalidConfig], and nothing else. *)
Theorem InvalidConfigError_Is (p : addr) (e : InvalidConfigError) (target : error) :
  errors_Is (InvalidConfigErr p e) target
  = error_eqb (InvalidConfigErr p e) target || error_eqb target ErrInvalidConfig.
Proof.
  destruct (is_nil target) eqn:Ht.
  { destruct target; try discriminate Ht. reflexivity. }
  rewrite errors_Is_unfold by done. cbn [Is_method Unwrap_method is_nil ErrInvalidConfig].
  fold ErrInvalidConfig.
  rewrite (errors_Is_leaf ErrInvalidConfig) by reflexivity.
  rewrite (error_eqb_sym ErrInvalidConfig target).
  destruct (error_eqb (InvalidConfigErr p e) target),
    (error_eqb target ErrInvalidConfig); reflexivity.
Qed.

(** X7.  A [*StorageError] matches itself, the sentinel
    [ErrStorageUnavailable], and whatever its cause matches: [Unwrap]
    keeps the cause within reach of [errors.Is]. *)
Theorem StorageError_Is_cause
    (p : addr) (Backend Operation Key : string) (Err target : error) :
  errors_Is (StorageErr p Backend Operation Key Err) target
  = error_eqb (StorageErr p Backend Operation Key Err) target
    || error_eqb target ErrStorageUnavailable
    || (negb (is_nil Err) && errors_Is Err target).
Proof.
  destruct (is_nil target) eqn:Ht.
  { destruct target; try discriminate Ht.
    unfold errors_Is. simpl. rewrite orb_true_r. by destruct Err. }
  rewrite errors_Is_unfold by done. cbn [Is_method Unwrap_method].
  destruct (error_eqb (StorageErr p Backend Operation Key Err) target),
    (error_eqb target ErrStorageUnavailable), (is_nil Err); reflexivity.
Qed.

(** ** Errors: [wrapContextError] *)

(** X8.  [wrapContextError] applied twice is [wrapContextError] applied
    once: what it returns is never rewritten again. *)
Theorem wrapContextError_idempotent (e : error) :
  wrapContextError (wrapContextError e) = wrapContextError e.
Proof.
  destruct (is_nil e) eqn:He.
  { destruct e; try discriminate He. reflexivity. }
  destruct (errors_Is e context_Canceled) eqn:Hc.
  { assert (wrapContextError e = ErrContextCanceled) as ->; [| reflexivity].
    unfold wrapContextError. by rewrite He, Hc. }
  destruct (errors_Is e context_DeadlineExceeded) eqn:Hd.
  { assert (wrapContextError e = ErrContextDeadlineExceeded) as ->; [| reflexivity].
    unfold wrapContextError. by rewrite He, Hc, Hd. }
  assert (wrapContextError e = e) as Hw.
  { unfold wrapContextError. by rewrite He, Hc, Hd. }
  by rewrite !Hw.
Qed.

(** X9.  [wrapContextError] returns nil exactly for nil: it neither drops
    an error nor makes one up. *)
Theorem wrapContextError_nil_iff (e : error) :
  is_nil (wrapContextError e) = is_nil e.
Proof.
  unfold wrapContextError.
  destruct (is_nil e) eqn:He; [reflexivity |].
  destruct (errors_Is e context_Canceled); [reflexivity |].
  destruct (errors_Is e context_DeadlineExceeded); [reflexivity | exact He].
Qed.

(** X10.  [wrapContextError] returns a [*LimitExceededError] and an
    [*InvalidConfigError] as they are, and the six sentinels too: none of
    them is taken for a context error. *)
Theorem wrapContextError_keeps_own_errors :
  (∀ p e, wrapContextError (LimitExceededErr p e) = LimitExceededErr p e) ∧
  (∀ p e, wrapContextError (InvalidConfigErr p e) = InvalidConfigErr p e) ∧
  Forall (fun s => wrapContextError s = s)
    [ErrRateLimitExceeded; ErrInvalidConfig; ErrStorageUnavailable; ErrKeyNotFound;
     ErrContextCanceled; ErrContextDeadlineExceeded].
Proof.
  split; [| split]; [reflexivity | reflexivity |].
  repeat constructor.
Qed.

(** X11.  A [*StorageError] caused by a cancelled context is replaced by
    the bare sentinel [ErrContextCanceled]: the result no longer matches
    [ErrStorageUnavailable], although the storage error did, and the
    backend, the operation and the key are gone with it. *)
Theorem wrapContextError_drops_storage_context
    (p : addr) (Backend Operation Key : string) (Err : error) :
  errors_Is Err context_Canceled = true →
  wrapContextError (StorageErr p Backend Operation Key Err) = ErrContextCanceled ∧
  errors_Is (StorageErr p Backend Operation Key Err) ErrStorageUnavailable = true ∧
  errors_Is (wrapContextError (StorageErr p Backend Operation Key Err))
            ErrStorageUnavailable = false.
Proof.
  intros Hc.
  assert (He : is_nil Err = false).
  { destruct Err; try reflexivity. by rewrite errors_Is_nil_l in Hc. }
  assert (Hs : errors_Is (StorageErr p Backend Operation Key Err) context_Canceled = true).
  { rewrite errors_Is_unfold by done. cbn [Is_method Unwrap_method error_eqb].
    rewrite He, Hc. reflexivity. }
  assert (Hw : wrapContextError (StorageErr p Backend Operation Key Err) = ErrContextCanceled).
  { unfold wrapContextError. by rewrite Hs. }
  split; [exact Hw | split].
  - rewrite errors_Is_unfold; reflexivity.
  - rewrite Hw. reflexivity.
Qed.

Lemma wrapContextError_drops_storage_context_witness :
  wrapContextError (StorageErr 60 "redis" "incr" "user:123" context_Canceled)
    = ErrContextCanceled ∧
  errors_Is (StorageErr 60 "redis" "incr" "user:123" context_Canceled)
            ErrStorageUnavailable = true ∧
  errors_Is (wrapContextError (StorageErr 60 "redis" "incr" "user:123" context_Canceled))
            ErrStorageUnavailable = false.
Proof.
  apply (wrapContextError_drops_storage_context 60 "redis" "incr" "user:123" context_Canceled).
  reflexivity.
Defined.

(** ** Validation: what an error of [Config.Validate] tells *)

(** X12.  An error returned by [Config.Validate] names a field that does
    offend and carries that field's value: "rate" with a rate that is not
    positive, "window" with a window that is not positive, or "burst_size"
    with a negative burst size; it never names the algorithm. *)
Theorem Validate_error_sound (c : Config) (e : ConfigError) :
  Validate c = Some e →
  (Field e = "rate" ∧ Value e = VInt64 (Rate c) ∧ Rate c ≤ 0) ∨
  (Field e = "window" ∧ Value e = VDuration (Window c) ∧ Window c ≤ 0) ∨
  (Field e = "burst_size" ∧ Value e = VInt64 (BurstSize c) ∧ BurstSize c < 0).
Proof.
  unfold Validate.
  destruct (Z.leb_spec (Rate c) 0); [intros [= <-]; by left |].
  destruct (Z.leb_spec (Window c) 0); [intros [= <-]; right; by left |].
  destruct (Z.ltb_spec (BurstSize c) 0); [intros [= <-]; right; by right |].
  discriminate.
Qed.

Lemma Validate_error_sound_witness :
  let c := {| Rate := 10; Window := -5; BurstSize := -1; Algorithm := "fixed_window" |} in
  let e := {| Field := "window"; Value := VDuration (-5); Reason := "must be positive" |} in
  (Field e = "rate" ∧ Value e = VInt64 (Rate c) ∧ Rate c ≤ 0) ∨
  (Field e = "window" ∧ Value e = VDuration (Window c) ∧ Window c ≤ 0) ∨
  (Field e = "burst_size" ∧ Value e = VInt64 (BurstSize c) ∧ BurstSize c < 0).
Proof.
  apply (Validate_error_sound
           {| Rate := 10; Window := -5; BurstSize := -1; Algorithm := "fixed_window" |}).
  reflexivity.
Defined.

(** ** The mock clock: runs of calls *)

Lemma DisableAutoAdvance_free (m : Mock) :
  mu m = Sync.unlocked →
  DisableAutoAdvance m
  = Some (tt, {| mu := Sync.unlocked; now := now m; auto := false; step := step m |}).
Proof. intros Hfree. run_clock m Hfree. Qed.

Lemma Since_free (m : Mock) (u : Time.Time) :
  mu m = Sync.unlocked →
  Since u m = Some (Time.Sub (now m) u,
                    at_time m (if auto m then Time.Add (now m) (step m) else now m)).
Proof.
  intros Hfree. unfold Since, mbind, M_bind. by rewrite (Now_free m Hfree).
Qed.

(** One call made with the lock free returns and frees the lock. *)
Lemma run_free (c : call) (m : Mock) :
  mu m = Sync.unlocked → ∃ m', run c m = Some (tt, m') ∧ mu m' = Sync.unlocked.
Proof.
  intros Hfree. destruct c as [| t | d | s | | u]; unfold run, mbind, M_bind.
  - rewrite (Now_free m Hfree). by eexists.
  - rewrite (Set_free m t Hfree). by eexists.
  - rewrite (Advance_free m d Hfree). by eexists.
  - rewrite (SetAutoAdvance_free m s Hfree). by eexists.
  - rewrite (DisableAutoAdvance_free m Hfree). by eexists.
  - rewrite (Since_free m u Hfree). by eexists.
Qed.

(** X13.  Started with the lock free, every run of calls of the clock's
    methods by one goroutine returns and leaves the lock free: the methods
    are balanced in their locking, [Now] with its release of the read lock
    around the write included, so none waits on itself or unlocks a lock it
    does not hold. *)
Theorem Mock_calls_return (cs : list call) (m : Mock) :
  mu m = Sync.unlocked →
  ∃ m', run_all cs m = Some (tt, m') ∧ mu m' = Sync.unlocked.
Proof.
  revert m. induction cs as [| c cs IH]; intros m Hfree.
  - by exists m.
  - cbn [run_all]. unfold mbind, M_bind at 1.
    destruct (run_free c m Hfree) as (m1 & -> & Hfree1).
    apply IH, Hfree1.
Qed.

Lemma Mock_calls_return_witness :
  ∃ m', run_all [CallSetAutoAdvance 5; CallNow; CallSince 3; CallDisableAutoAdvance;
                 CallAdvance 7; CallSet 0]
                (NewMockAt 1000) = Some (tt, m') ∧ mu m' = Sync.unlocked.
Proof. apply (Mock_calls_return _ (NewMockAt 1000)). reflexivity. Defined.

Lemma int64_in_range (z : Z) :
  Time.minDuration ≤ z ≤ Time.maxDuration → Time.int64 z = z.
Proof.
  unfold Time.minDuration, Time.maxDuration, Time.int64. intros Hz.
  rewrite Z.mod_small by lia. lia.
Qed.

(** X14.  [Advance] adds up as long as the sum of the durations is a
    duration: advancing by [d1] and then by [d2] is advancing once by
    [d1 + d2] when that sum does not leave the int64; advancing by zero
    changes nothing; and advancing by [d] and then by [-d] restores the
    clock unless [d] is the least duration, whose negation is itself.  No
    sign is checked: a negative duration moves the clock back. *)
Theorem Advance_adds (m : Mock) (d1 d2 : Time.Duration) :
  mu m = Sync.unlocked →
  Time.minDuration ≤ d1 ≤ Time.maxDuration →
  Time.minDuration ≤ d2 ≤ Time.maxDuration →
  (Time.minDuration ≤ d1 + d2 ≤ Time.maxDuration →
     (Advance d1 ;; Advance d2) m = Advance (Time.Duration_add d1 d2) m) ∧
  Advance 0 m = Some (tt, m) ∧
  (d1 ≠ Time.minDuration →
     (Advance d1 ;; Advance (Time.Duration_neg d1)) m = Some (tt, m)).
Proof.
  intros Hfree H1 H2. unfold mbind, M_bind.
  split; [| split].
  - intros Hsum. unfold Time.Duration_add. rewrite (int64_in_range _ Hsum).
    repeat (rewrite Advance_free by (first [exact Hfree | reflexivity])).
    unfold at_time, Time.Add. cbn [now auto step mu]. do 3 f_equal. lia.
  - rewrite (Advance_free m 0 Hfree).
    destruct m as [mu0 now0 auto0 step0]. simpl in Hfree. subst mu0.
    unfold at_time, Time.Add. cbn [now auto step mu]. do 3 f_equal. lia.
  - intros Hmin. unfold Time.Duration_neg.
    rewrite int64_in_range by (unfold Time.minDuration, Time.maxDuration in *; lia).
    repeat (rewrite Advance_free by (first [exact Hfree | reflexivity])).
    destruct m as [mu0 now0 auto0 step0]. simpl in Hfree. subst mu0.
    unfold at_time, Time.Add. cbn [now auto step mu]. do 3 f_equal. lia.
Qed.

Lemma Advance_adds_witness :
  (Advance 60 ;; Advance 40) (NewMockAt 1000) = Advance 100 (NewMockAt 1000) ∧
  Advance 0 (NewMockAt 1000) = Some (tt, NewMockAt 1000) ∧
  (Advance 60 ;; Advance (- 60)) (NewMockAt 1000) = Some (tt, NewMockAt 1000).
Proof.
  assert (Hr : ∀ z, -1000 ≤ z ≤ 1000 → Time.minDuration ≤ z ≤ Time.maxDuration).
  { unfold Time.minDuration, Time.maxDuration. intros z Hz. lia. }
  destruct (Advance_adds (NewMockAt 1000) 60 40 eq_refl (Hr 60 ltac:(lia)) (Hr 40 ltac:(lia)))
    as (Hadd & Hzero & Hneg).
  split; [| split].
  - exact (Hadd (Hr (60 + 40) ltac:(lia))).
  - exact Hzero.
  - apply Hneg. discriminate.
Defined.

(** Outside that range the durations wrap: the sum of the greatest
    duration with itself is [-2], and the least duration is its own
    negation, so neither equation of [Advance] holds there. *)
Example Advance_wraps :
  Time.Duration_add Time.maxDuration Time.maxDuration = -2 ∧
  (Advance Time.maxDuration ;; Advance Time.maxDuration) (NewMockAt 0)
    ≠ Advance (Time.Duration_add Time.maxDuration Time.maxDuration) (NewMockAt 0) ∧
  Time.Duration_neg Time.minDuration = Time.minDuration ∧
  (Advance Time.minDuration ;; Advance (Time.Duration_neg Time.minDuration)) (NewMockAt 0)
    ≠ Some (tt, NewMockAt 0).
Proof. repeat split; (reflexivity || discriminate). Qed.

(** X15.  [Set] is absolute: it makes the clock forget every earlier
    [Set] and [Advance], and an [Advance] after it counts from the time
    set.  Neither touches the auto-advance setting. *)
Theorem Set_overrides (m : Mock) (t t' : Time.Time) (d : Time.Duration) :
  mu m = Sync.unlocked →
  (Clock.Set_ t' ;; Clock.Set_ t) m = Clock.Set_ t m ∧
  (Advance d ;; Clock.Set_ t) m = Clock.Set_ t m ∧
  (Clock.Set_ t ;; Advance d) m = Clock.Set_ (t + d) m ∧
  (∀ m', Clock.Set_ t m = Some (tt, m') → auto m' = auto m ∧ step m' = step m) ∧
  (∀ m', Advance d m = Some (tt, m') → auto m' = auto m ∧ step m' = step m).
Proof.
  intros Hfree. unfold mbind, M_bind.
  repeat (rewrite Set_free by (first [exact Hfree | reflexivity])).
  repeat (rewrite Advance_free by (first [exact Hfree | reflexivity])).
  repeat (rewrite Set_free by (first [exact Hfree | reflexivity])).
  split; [reflexivity |]. split; [reflexivity |]. split; [reflexivity |].
  split; intros m' [= <-]; split; reflexivity.
Qed.

Lemma Set_overrides_witness :
  (Clock.Set_ 7 ;; Advance 3) (NewMockAt 1000) = Clock.Set_ 10 (NewMockAt 1000).
Proof.
  apply (proj1 (proj2 (proj2 (Set_overrides (NewMockAt 1000) 7 0 3 eq_refl)))).
Defined.

Lemma Now_times_manual (k : nat) (m : Mock) :
  mu m = Sync.unlocked → auto m = false →
  Now_times k m = Some (repeat (now m) k, m).
Proof.
  intros Hfree Hauto. induction k as [| k IH]; [reflexivity |].
  cbn [Now_times]. unfold mbind, M_bind at 1.
  rewrite (Now_free m Hfree), Hauto.
  assert (Hm : at_time m (now m) = m).
  { destruct m. simpl in *. by subst. }
  rewrite Hm. unfold mbind, M_bind at 1. by rewrite IH.
Qed.

(** X16.  Without auto-advance [Now] only reads: any number of calls
    return the same time and leave the clock as it was.  This is so for a
    clock made by [NewMockAt], and again after [DisableAutoAdvance], which
    stops the clock where it stands and keeps the step it no longer
    uses. *)
Theorem Now_reads_only (m : Mock) (k : nat) :
  mu m = Sync.unlocked →
  (auto m = false → Now_times k m = Some (repeat (now m) k, m)) ∧
  (∀ t, Now_times k (NewMockAt t) = Some (repeat t k, NewMockAt t)) ∧
  (∀ s, (SetAutoAdvance s ;; DisableAutoAdvance ;; Now_times k) m
        = Some (repeat (now m) k,
                {| mu := Sync.unlocked; now := now m; auto := false; step := s |})).
Proof.
  intros Hfree. split; [| split].
  - intros Hauto. by apply Now_times_manual.
  - intros t. by apply Now_times_manual.
  - intros s. unfold mbind, M_bind.
    rewrite (SetAutoAdvance_free m s Hfree), DisableAutoAdvance_free by reflexivity.
    by rewrite Now_times_manual.
Qed.

Lemma Now_reads_only_witness :
  (SetAutoAdvance 5 ;; DisableAutoAdvance ;; Now_times 3) (NewMockAt 1000)
  = Some ([1000; 1000; 1000],
          {| mu := Sync.unlocked; now := 1000; auto := false; step := 5 |}).
Proof.
  apply (proj2 (proj2 (Now_reads_only (NewMockAt 1000) 3 eq_refl)) 5).
Defined.

(** X17.  With auto-advance on, [Since] is no pure read either: it calls
    [Now], so two calls of [Since u] in a row differ by the step, and the
    clock has moved by two steps. *)
Theorem Since_advances (m : Mock) (u : Time.Time) :
  mu m = Sync.unlocked → auto m = true →
  (d1 ← Since u; d2 ← Since u; mret (d1, d2)) m
  = Some ((Time.Sub (now m) u, Time.Sub (now m + step m) u),
          at_time m (now m + step m + step m)).
Proof.
  intros Hfree Hauto. unfold mbind, M_bind.
  rewrite (Since_free m u Hfree), Hauto, Since_free by reflexivity.
  cbn [auto at_time now step]. rewrite Hauto. reflexivity.
Qed.

Lemma Since_advances_witness :
  (d1 ← Since 400; d2 ← Since 400; mret (d1, d2)) (auto_by (NewMockAt 1000) 5)
  = Some ((600, 605), at_time (auto_by (NewMockAt 1000) 5) 1010).
Proof.
  apply (Since_advances (auto_by (NewMockAt 1000) 5) 400); reflexivity.
Defined.

(** ** Package storage: what [errors.Is] finds in a [StorageError] *)

Lemma storage_chain_Unwrap (err err' : StorageErrors.error) :
  StorageErrors.Unwrap_method err = Some err' → StorageErrors.is_nil err' = false →
  StorageErrors.chain err = S (StorageErrors.chain err').
Proof.
  destruct err as [| | | p Op Key [| s | e]]; intros [= <-]; try reflexivity; discriminate.
Qed.

(** [errors.Is] of package storage, one turn of the loop at a time. *)
Lemma storage_errors_Is_unfold (err target : StorageErrors.error) :
  StorageErrors.is_nil err = false → StorageErrors.is_nil target = false →
  StorageErrors.errors_Is err target =
    if StorageErrors.error_eqb err target then true
    else match StorageErrors.Unwrap_method err with
         | Some err' =>
             if StorageErrors.is_nil err' then false
             else StorageErrors.errors_Is err' target
         | None => false
         end.
Proof.
  intros He Ht. unfold StorageErrors.errors_Is at 1. rewrite He, Ht. cbn [orb].
  destruct (StorageErrors.chain err) as [| n] eqn:Hc.
  { destruct err as [| | | p Op Key [| s | e]]; discriminate. }
  cbn [StorageErrors.is_loop].
  destruct (StorageErrors.error_eqb err target); [reflexivity |].
  destruct (StorageErrors.Unwrap_method err) as [err' |] eqn:Hu; [| reflexivity].
  destruct (StorageErrors.is_nil err') eqn:E; [reflexivity |].
  unfold StorageErrors.errors_Is. rewrite E, Ht. cbn [orb].
  rewrite (storage_chain_Unwrap err err' Hu E) in Hc. by injection Hc as <-.
Qed.

(** X18.  A storage [*StorageError] whose cause is a message or nothing
    matches, under [errors.Is], itself only: the three sentinels of the
    package, whose causes are messages, do not match one another, and
    another [StorageError] with the fields of a sentinel does not match
    it. *)
Theorem storage_StorageError_Is_message
    (p : Z) (Op Key : string) (Err : StorageErrors.cause StorageErrors.error)
    (target : StorageErrors.error) :
  StorageErrors.Unwrap Err = StorageErrors.ErrNil →
  StorageErrors.errors_Is (StorageErrors.StorageError p Op Key Err) target
  = StorageErrors.error_eqb (StorageErrors.StorageError p Op Key Err) target.
Proof.
  intros Hu. destruct (StorageErrors.is_nil target) eqn:Ht.
  { unfold StorageErrors.errors_Is. rewrite Ht. reflexivity. }
  rewrite storage_errors_Is_unfold by done.
  cbn [StorageErrors.Unwrap_method]. rewrite Hu. cbn [StorageErrors.is_nil].
  by destruct (StorageErrors.error_eqb _ target).
Qed.

Lemma storage_StorageError_Is_message_witness :
  StorageErrors.errors_Is
    (StorageErrors.StorageError 70 "get" "" (StorageErrors.CauseString "key not found"))
    StorageErrors.ErrKeyNotFound = false ∧
  StorageErrors.errors_Is StorageErrors.ErrKeyNotFound StorageErrors.ErrStorageUnavailable
    = false ∧
  StorageErrors.errors_Is StorageErrors.ErrKeyNotFound StorageErrors.ErrKeyNotFound = true.
Proof.
  split; [| split].
  - rewrite (storage_StorageError_Is_message 70 "get" ""
               (StorageErrors.CauseString "key not found")); reflexivity.
  - unfold StorageErrors.ErrKeyNotFound.
    rewrite (storage_StorageError_Is_message 11 "get" ""
               (StorageErrors.CauseString "key not found")); reflexivity.
  - unfold StorageErrors.ErrKeyNotFound.
    rewrite (storage_StorageError_Is_message 11 "get" ""
               (StorageErrors.CauseString "key not found")); reflexivity.
Defined.

(** X19.  A storage [*StorageError] whose cause is an error matches itself
    and whatever the cause matches, and nothing else: [Unwrap] hands the
    cause to [errors.Is]. *)
Theorem storage_StorageError_Is_cause
    (p : Z) (Op Key : string) (err target : StorageErrors.error) :
  StorageErrors.errors_Is
    (StorageErrors.StorageError p Op Key (StorageErrors.CauseError err)) target
  = StorageErrors.error_eqb
      (StorageErrors.StorageError p Op Key (StorageErrors.CauseError err)) target
    || (negb (StorageErrors.is_nil err) && StorageErrors.errors_Is err target).
Proof.
  destruct (StorageErrors.is_nil target) eqn:Ht.
  { destruct target; try discriminate Ht.
    unfold StorageErrors.errors_Is. simpl. rewrite orb_true_r. by destruct err. }
  rewrite storage_errors_Is_unfold by done.
  cbn [StorageErrors.Unwrap_method StorageErrors.Unwrap].
  destruct (StorageErrors.error_eqb _ target), (StorageErrors.is_nil err); reflexivity.
Qed.

(** A "get" that failed on a missing key, wrapped once more by a caller. *)
Example storage_wrapped_key_not_found :
  StorageErrors.errors_Is
    (StorageErrors.wrapError 71 "allow user:123"
       (StorageErrors.StorageError 72 "get" "user:123"
          (StorageErrors.CauseError StorageErrors.ErrKeyNotFound)))
    StorageErrors.ErrKeyNotFound = true.
Proof. reflexivity. Qed.
